(** * utils::dynarray<T>: a shallow embedding of dynarray.hpp

    The container is a pair of a [std::unique_ptr<T[]>] and a [size_t].
    Its member functions read and write those two fields of [*this] (and of
    [other]), and the array the pointer designates.  The embedding keeps
    that shape: a store of dynarray objects, a heap of array blocks, raw
    pointers as a block and an offset, and a monad that threads the memory
    and carries the two C++ failure modes: a thrown exception and undefined
    behaviour.

    Reading conventions.
    - [size_type] is [nat].  The member functions only compare sizes and
      offsets and add [size()] to the data pointer; the one subtraction,
      [size() - 1] in [back()], wraps at size 0 and is written out there.
    - A member function of a class template is instantiated when a program
      first uses it.  Several of them call [m_data.data()], and
      [std::unique_ptr<T[]>] declares no member [data]: such a function has
      no instantiation, and a program that uses it does not compile.  A
      member function whose body is well-formed is embedded as a function;
      one whose body names [data()], itself or through [begin()] and
      [end()], is embedded as an [option] that holds its translated body
      when everything the body names exists, and evaluates to [None].
    - [new T[count]] throws [std::bad_alloc] when the free store cannot
      hold the array.
    - [std::fill] and [std::copy] are library code and are parameters.
    - Destruction is not modelled. *)

From Stdlib Require Import String DecimalString.
From stdpp Require Import base option list gmap.

Module utils.

(** Identity of an array allocation ([new T[n]]) and of a dynarray object. *)
Abbreviation block := positive.
Abbreviation objref := positive.

(** [T*]: null, or a position inside (or one past the end of) a block. *)
Inductive pointer : Set :=
| nullptr
| Ptr (b : block) (off : nat).

#[global] Instance pointer_eq_dec : EqDecision pointer.
Proof. solve_decision. Defined.

(** [std::reverse_iterator<T*>]: wraps the position one past the element
    it designates. *)
Record reverse_iterator : Set := ReverseIterator { current : pointer }.

#[global] Instance reverse_iterator_eq_dec : EqDecision reverse_iterator.
Proof. solve_decision. Defined.

(** The two data members. *)
Record dynarray : Set := Dynarray {
  m_data : pointer;   (* std::unique_ptr<T[]> *)
  m_size : nat        (* size_type *)
}.

(** [std::initializer_list<T>]: a view of a constant backing array. *)
Record initializer_list : Set := InitializerList {
  il_begin : pointer;
  il_size : nat
}.

(** [std::bad_alloc] stands for [std::bad_array_new_length] too, which
    derives from it. *)
Inductive exception : Set :=
| invalid_argument (what : string)
| out_of_range (what : string)
| bad_alloc.

#[global] Instance nat_ge_dec : RelDecision ge := λ x y, decide (y ≤ x).

(** [std::to_string] at an unsigned argument: decimal digits. *)
Definition to_string (n : nat) : string :=
  NilEmpty.string_of_uint (Nat.to_uint n).

(** What default-initialisation ([new T[n]]) leaves in the element at each
    offset: the default-constructed value of a class type; for a scalar
    type, whatever the storage happens to hold. *)
Class DefaultConstructible (T : Type) := default_init : nat → T.

(** How many elements of [T] the free store can hold. *)
Class FreeStore (T : Type) := free_store : nat.

Section memory.
Context {T : Type} `{!FreeStore T}.

Record state : Type := State {
  objs : gmap objref dynarray;
  heap : gmap block (list T)
}.

Definition initial : state := State ∅ ∅.

(** A computation ends normally, by a throw (the memory at the throw is
    kept), or in undefined behaviour. *)
Inductive outcome (A : Type) : Type :=
| Normal (a : A) (s : state)
| Thrown (e : exception) (s : state)
| Undefined.
#[global] Arguments Normal {A} a s.
#[global] Arguments Thrown {A} e s.
#[global] Arguments Undefined {A}.

Definition M (A : Type) : Type := state → outcome A.

Definition value_of {A} (o : outcome A) : option A :=
  match o with Normal a _ => Some a | _ => None end.

Definition state_of {A} (o : outcome A) : option state :=
  match o with Normal _ s | Thrown _ s => Some s | Undefined => None end.

#[global] Instance M_ret : MRet M := λ A a s, Normal a s.
#[global] Instance M_bind : MBind M := λ A B k m s,
  match m s with
  | Normal a s' => k a s'
  | Thrown e s' => Thrown e s'
  | Undefined => Undefined
  end.

Definition throw {A} (e : exception) : M A := λ s, Thrown e s.
Definition undefined {A} : M A := λ _, Undefined.

(** ** Memory primitives *)

(** The elements the arrays of a heap hold, all together. *)
Definition allocated (h : gmap block (list T)) : nat :=
  map_fold (λ _ l n, length l + n) 0 h.

(** [new T[count]], the element at offset [i] left as [init i]; throws
    when the free store cannot hold [count] more elements. *)
Definition new_array (count : nat) (init : nat → T) : M pointer := λ s,
  if decide (allocated (heap s) + count ≤ free_store) then
    let b := fresh (dom (heap s)) in
    Normal (Ptr b 0)
           (State (objs s) (<[b := init <$> seq 0 count]> (heap s)))
  else Thrown bad_alloc s.

(** Reading through a pointer. *)
Definition load (p : pointer) : M T := λ s,
  match p with
  | nullptr => Undefined
  | Ptr b off =>
      match heap s !! b ≫= (.!! off) with
      | Some x => Normal x s
      | None => Undefined
      end
  end.

(** Writing through a pointer. *)
Definition store (p : pointer) (x : T) : M unit := λ s,
  match p with
  | nullptr => Undefined
  | Ptr b off =>
      match heap s !! b with
      | Some l =>
          if decide (off < length l)
          then Normal () (State (objs s) (<[b := <[off := x]> l]> (heap s)))
          else Undefined
      | None => Undefined
      end
  end.

(** [p + n]: defined up to one past the end of the array; [nullptr + 0]
    is [nullptr]. *)
Definition ptr_add (p : pointer) (n : nat) : M pointer := λ s,
  match p with
  | nullptr => if n is 0 then Normal nullptr s else Undefined
  | Ptr b off =>
      match heap s !! b with
      | Some l =>
          if decide (off + n ≤ length l)
          then Normal (Ptr b (off + n)) s else Undefined
      | None => Undefined
      end
  end.

(** The fields of a dynarray object. *)
Definition get (this : objref) : M dynarray := λ s,
  match objs s !! this with
  | Some d => Normal d s
  | None => Undefined
  end.

Definition put (this : objref) (d : dynarray) : M unit := λ s,
  match objs s !! this with
  | Some _ => Normal () (State (<[this := d]> (objs s)) (heap s))
  | None => Undefined
  end.

(** Storage for the object a constructor initialises. *)
Definition new_object (d : dynarray) : M objref := λ s,
  let this := fresh (dom (objs s)) in
  Normal this (State (<[this := d]> (objs s)) (heap s)).

End memory.

#[global] Arguments state T : clear implicits.
#[global] Arguments outcome T A : clear implicits.
#[global] Arguments M T A : clear implicits.

(** The [Alloc] template parameter of the allocator overloads: an object
    with an [allocate(n)] member that yields storage for [n] elements. *)
Class Allocator (T A : Type) := allocate : A → nat → M T pointer.
#[global] Hint Mode Allocator - ! : typeclass_instances.

(** [std::fill(first, last, value)] and [std::copy(first, last, d_first)]
    on raw pointers. *)
Class Algorithms (T : Type) := {
  std_fill : pointer → pointer → T → M T unit;
  std_copy : pointer → pointer → pointer → M T pointer
}.

(** ** The member functions of dynarray<T> *)

Section pointers.
Context {T : Type}.

(** [*p] designates an element only inside the array. *)
Definition lvalue (p : pointer) : M T pointer := λ s,
  match p with
  | nullptr => Undefined
  | Ptr b off =>
      match heap s !! b with
      | Some l => if decide (off < length l) then Normal p s else Undefined
      | None => Undefined
      end
  end.

(** [p[i]], that is [*(p + i)]. *)
Definition ptr_index (p : pointer) (i : nat) : M T pointer :=
  q ← ptr_add p i; lvalue q.

End pointers.

Section dynarray.
Context {T : Type}.
Context `{!DefaultConstructible T, !FreeStore T, !Algorithms T}.

Local Open Scope string_scope.

(** Field access on an object of the store. *)
Definition get_data (x : objref) : M T pointer := d ← get x; mret (m_data d).
Definition get_size (x : objref) : M T nat := d ← get x; mret (m_size d).
Definition set_data (x : objref) (p : pointer) : M T unit :=
  d ← get x; put x (Dynarray p (m_size d)).
Definition set_size (x : objref) (n : nat) : M T unit :=
  d ← get x; put x (Dynarray (m_data d) n).

(** [std::move] of a unique_ptr member into a new holder: the member is
    left null. *)
Definition release (x : objref) : M T pointer :=
  p ← get_data x; set_data x nullptr;; mret p.

(** [m_data.data()].  [std::unique_ptr<T[]>] declares [get], [release],
    [reset], [swap] and [operator[]], and no member [data]: the call
    names no function. *)
Definition unique_ptr_data : option (objref → M T pointer) := None.

(** Capacity API *)
Definition empty (this : objref) : M T bool :=
  n ← get_size this; mret (bool_decide (n = 0)).

Definition size (this : objref) : M T nat := get_size this.

(** Iterator API.  [begin], [cbegin] and both overloads of each function
    have the same body; the const overloads of [rbegin] and [rend]
    moreover build a [std::reverse_iterator<T*>] from a [T const*]. *)
Definition begin : option (objref → M T pointer) :=
  m_data_data ← unique_ptr_data;
  Some (λ this, m_data_data this).

Definition end_ : option (objref → M T pointer) :=
  m_data_data ← unique_ptr_data;
  Some (λ this, p ← m_data_data this; n ← size this; ptr_add p n).

Definition rbegin : option (objref → M T reverse_iterator) :=
  end_of ← end_;
  Some (λ this, p ← end_of this; mret (ReverseIterator p)).

Definition rend : option (objref → M T reverse_iterator) :=
  begin_of ← begin;
  Some (λ this, p ← begin_of this; mret (ReverseIterator p)).

(** (1) construct by count *)
Definition ctor_count (count : nat) : M T objref :=
  p ← new_array count default_init;
  new_object (Dynarray p count).

Definition ctor_count_alloc {Alloc} `{!Allocator T Alloc}
    (count : nat) (alloc : Alloc) : M T objref :=
  p ← allocate alloc count;
  new_object (Dynarray p count).

(** (2) construct by count and copied value *)
Definition ctor_count_value : option (nat → T → M T objref) :=
  begin_of ← begin; end_of ← end_;
  Some (λ count value,
    p ← new_array count default_init;
    this ← new_object (Dynarray p count);
    first ← begin_of this; last ← end_of this;
    std_fill first last value;;
    mret this).

Definition ctor_count_value_alloc {Alloc} `{!Allocator T Alloc}
    : option (nat → T → Alloc → M T objref) :=
  begin_of ← begin; end_of ← end_;
  Some (λ count value alloc,
    p ← allocate alloc count;
    this ← new_object (Dynarray p count);
    first ← begin_of this; last ← end_of this;
    std_fill first last value;;
    mret this).

(** (3) copy-construct *)
Definition ctor_copy : option (objref → M T objref) :=
  begin_of ← begin; end_of ← end_;
  Some (λ other,
    n ← size other;
    p ← new_array n default_init;
    n ← size other;
    this ← new_object (Dynarray p n);
    first ← begin_of other; last ← end_of other; d_first ← begin_of this;
    std_copy first last d_first;;
    mret this).

Definition ctor_copy_alloc {Alloc} `{!Allocator T Alloc}
    : option (objref → Alloc → M T objref) :=
  begin_of ← begin; end_of ← end_;
  Some (λ other alloc,
    n ← size other;
    p ← allocate alloc n;
    n ← size other;
    this ← new_object (Dynarray p n);
    first ← begin_of other; last ← end_of other; d_first ← begin_of this;
    std_copy first last d_first;;
    mret this).

(** (4) move-construct *)
Definition ctor_move (other : objref) : M T objref :=
  p ← release other;
  n ← size other;
  new_object (Dynarray p n).

(** (5) construct by initializer list *)
Definition ctor_list : option (initializer_list → M T objref) :=
  begin_of ← begin;
  Some (λ list,
    p ← new_array (il_size list) default_init;
    this ← new_object (Dynarray p (il_size list));
    last ← ptr_add (il_begin list) (il_size list);
    d_first ← begin_of this;
    std_copy (il_begin list) last d_first;;
    mret this).

Definition ctor_list_alloc {Alloc} `{!Allocator T Alloc}
    : option (initializer_list → Alloc → M T objref) :=
  begin_of ← begin;
  Some (λ list alloc,
    p ← allocate alloc (il_size list);
    this ← new_object (Dynarray p (il_size list));
    last ← ptr_add (il_begin list) (il_size list);
    d_first ← begin_of this;
    std_copy (il_begin list) last d_first;;
    mret this).

(** Assignment operators; each returns [*this]. *)
Definition assign_copy : option (objref → objref → M T objref) :=
  begin_of ← begin; end_of ← end_;
  Some (λ this other,
    n ← size this; m ← size other;
    if decide (n ≠ m) then
      throw (invalid_argument
        ("cannot copy-assign dynarray of size " ++ to_string m ++
         " into dynarray of size " ++ to_string n))
    else
      first ← begin_of other; last ← end_of other; d_first ← begin_of this;
      std_copy first last d_first;;
      mret this).

(** [std::swap(a, b)]: [tmp = move(a); a = move(b); b = move(tmp)]. *)
Definition swap_data (a b : objref) : M T unit :=
  tmp ← release a;
  (p ← release b; set_data a p);;
  set_data b tmp.

Definition swap_size (a b : objref) : M T unit :=
  tmp ← get_size a;
  (n ← get_size b; set_size a n);;
  set_size b tmp.

Definition assign_move (this other : objref) : M T objref :=
  swap_data this other;;
  swap_size this other;;
  mret this.

Definition assign_list : option (objref → initializer_list → M T objref) :=
  begin_of ← begin;
  Some (λ this list,
    n ← size this;
    if decide (n ≠ il_size list) then
      throw (invalid_argument
        ("cannot copy-assign initializer_list of size " ++
         to_string (il_size list) ++
         " into dynarray of size " ++ to_string n))
    else
      last ← ptr_add (il_begin list) (il_size list);
      d_first ← begin_of this;
      std_copy (il_begin list) last d_first;;
      mret this).

(** Access API (the const overloads have the same bodies) *)
Definition at_ (this : objref) (pos : nat) : M T pointer :=
  n ← size this;
  if decide (pos ≥ n) then
    throw (out_of_range
      ("cannot access element at position " ++ to_string pos ++
       " from a dynarray with size " ++ to_string n))
  else
    p ← get_data this; ptr_index p pos.

Definition subscript (this : objref) (pos : nat) : M T pointer :=
  p ← get_data this; ptr_index p pos.

Definition front (this : objref) : M T pointer :=
  p ← get_data this; ptr_index p 0.

(** [m_data[size() - 1]]; at size 0 the index wraps to the largest
    [size_t], which is outside every array. *)
Definition back (this : objref) : M T pointer :=
  n ← size this;
  match n with
  | 0 => undefined
  | S k => p ← get_data this; ptr_index p k
  end.

Definition data : option (objref → M T pointer) :=
  m_data_data ← unique_ptr_data;
  Some (λ this, m_data_data this).

(** Mutate API *)
Definition fill : option (objref → T → M T unit) :=
  begin_of ← begin; end_of ← end_;
  Some (λ this value,
    first ← begin_of this; last ← end_of this;
    std_fill first last value).

End dynarray.

(** ** What a dynarray holds *)

Section contents.
Context {T : Type}.

(** The element sequence an object holds in a memory: its size agrees
    with the array its pointer designates, or it is empty and holds no
    array.  A vacated object of non-zero size holds nothing. *)
Definition contents (s : state T) (this : objref) : option (list T) :=
  d ← objs s !! this;
  match m_data d with
  | nullptr => if m_size d is 0 then Some [] else None
  | Ptr b 0 =>
      l ← heap s !! b;
      if decide (length l = m_size d) then Some l else None
  | Ptr _ (S _) => None
  end.

(** Reading and writing one offset through the checked access. *)
Definition read (this : objref) (pos : nat) : M T T :=
  r ← at_ this pos; load r.

Definition write (this : objref) (pos : nat) (x : T) : M T unit :=
  r ← at_ this pos; store r x.

(** Reading the offsets [0 .. n-1] in order. *)
Fixpoint read_from (this : objref) (pos n : nat) : M T (list T) :=
  match n with
  | 0 => mret []
  | S n => x ← read this pos; xs ← read_from this (S pos) n; mret (x :: xs)
  end.

Definition read_all (this : objref) : M T (list T) :=
  n ← size this; read_from this 0 n.

(** Assigning the values of a list to consecutive offsets through the
    unchecked access: [a[pos] = x; a[pos + 1] = y; ...]. *)
Fixpoint write_from (this : objref) (pos : nat) (l : list T) : M T unit :=
  match l with
  | [] => mret ()
  | x :: l => r ← subscript this pos; store r x;; write_from this (S pos) l
  end.

End contents.

(** What the allocator overloads rely on: [allocate(n)] returns the start
    of an array of [n] elements. *)
Definition allocates {T A} `{!Allocator T A} (alloc : A) (n : nat)
    (s : state T) (b : block) (s1 : state T) : Prop :=
  allocate alloc n s = Normal (Ptr b 0) s1 ∧
  ∃ l0, heap s1 !! b = Some l0 ∧ length l0 = n.

(** An allocator that hands out [new T[n]]. *)
Inductive new_allocator : Set := NewAllocator.

#[global] Instance new_allocator_allocator {T}
    `{!DefaultConstructible T, !FreeStore T} : Allocator T new_allocator :=
  λ _ n, new_array n default_init.

(** ** Vocabulary for what a computation leaves alone *)

(** A computation that never ends by a throw. *)
Definition nothrow {T A} (m : M T A) : Prop :=
  ∀ s e s', m s ≠ Thrown e s'.

(** A computation that leaves the memory as it was, however it ends. *)
Definition readonly {T A} (m : M T A) : Prop :=
  ∀ s, match m s with
       | Normal _ s' | Thrown _ s' => s' = s
       | Undefined => True
       end.

(** ** Concrete memories for the examples *)

#[global] Instance nat_default_constructible : DefaultConstructible nat :=
  λ _, 0.

(** A small free store, of 1000 elements. *)
#[global] Instance nat_free_store : FreeStore nat := 1000.

(** The memory a program leaves when run from the empty memory. *)
Definition final {A} (m : M nat A) : state nat :=
  default initial (state_of (m initial)).

(** Object 1 built with count 3 and assigned 1, 2, 3; object 2 built with
    count 5 and assigned zeros. *)
Definition sample : M nat (objref * objref) :=
  a ← ctor_count 3; write_from a 0 [1; 2; 3];;
  b ← ctor_count 5; write_from b 0 [0; 0; 0; 0; 0];;
  mret (a, b).

(** Object 1 built with count 3 and assigned 1, 2, 3, then moved from. *)
Definition moved_from : M nat (objref * objref) :=
  src ← ctor_count 3; write_from src 0 [1; 2; 3];;
  new ← ctor_move src;
  mret (src, new).

(** * Properties *)

(** Unfolding of the monad operations. *)
Ltac munfold := unfold mbind, M_bind, mret, M_ret, throw, undefined in *.

(** Lookups in a memory built by insertions. *)
Ltac lookups :=
  simpl;
  repeat first [ rewrite lookup_insert_eq
               | rewrite lookup_insert_ne by congruence ];
  first [ reflexivity | eassumption ].

Section basic_facts.
Context {T : Type}.
Implicit Types (s : state T) (l : list T) (d : dynarray).

Lemma state_eta s : State (objs s) (heap s) = s.
Proof. by destruct s. Qed.

Lemma bind_normal {A B} (m : M T A) (k : A → M T B) s a s' :
  m s = Normal a s' → (m ≫= k) s = k a s'.
Proof. munfold. by intros ->. Qed.

Lemma bind_thrown {A B} (m : M T A) (k : A → M T B) s e s' :
  m s = Thrown e s' → (m ≫= k) s = Thrown e s'.
Proof. munfold. by intros ->. Qed.

Lemma bind_undefined {A B} (m : M T A) (k : A → M T B) s :
  m s = Undefined → (m ≫= k) s = Undefined.
Proof. munfold. by intros ->. Qed.

Lemma get_normal s x d : objs s !! x = Some d → get x s = Normal d s.
Proof. unfold get. by intros ->. Qed.

Lemma get_data_normal s x p n :
  objs s !! x = Some (Dynarray p n) → get_data x s = Normal p s.
Proof. intros H. unfold get_data. by erewrite bind_normal by by apply get_normal. Qed.

Lemma get_size_normal s x p n :
  objs s !! x = Some (Dynarray p n) → get_size x s = Normal n s.
Proof. intros H. unfold get_size. by erewrite bind_normal by by apply get_normal. Qed.

Lemma size_normal s x p n :
  objs s !! x = Some (Dynarray p n) → size x s = Normal n s.
Proof. apply get_size_normal. Qed.

Lemma empty_normal s x p n :
  objs s !! x = Some (Dynarray p n) →
  empty x s = Normal (bool_decide (n = 0)) s.
Proof. intros H. unfold empty. by erewrite bind_normal by by eapply get_size_normal. Qed.

Lemma set_data_normal s x p n q :
  objs s !! x = Some (Dynarray p n) →
  set_data x q s
  = Normal () (State (<[x := Dynarray q n]> (objs s)) (heap s)).
Proof.
  intros H. unfold set_data. erewrite bind_normal by by apply get_normal.
  unfold put. by rewrite H.
Qed.

Lemma set_size_normal s x p n m :
  objs s !! x = Some (Dynarray p n) →
  set_size x m s
  = Normal () (State (<[x := Dynarray p m]> (objs s)) (heap s)).
Proof.
  intros H. unfold set_size. erewrite bind_normal by by apply get_normal.
  unfold put. by rewrite H.
Qed.

Lemma release_normal s x p n :
  objs s !! x = Some (Dynarray p n) →
  release x s
  = Normal p (State (<[x := Dynarray nullptr n]> (objs s)) (heap s)).
Proof.
  intros H. unfold release.
  erewrite bind_normal by by eapply get_data_normal.
  by erewrite bind_normal by by eapply set_data_normal.
Qed.

Lemma load_normal s b off l x :
  heap s !! b = Some l → l !! off = Some x →
  load (Ptr b off) s = Normal x s.
Proof. unfold load. intros -> ?. simpl. by simplify_option_eq. Qed.

Lemma lvalue_normal s b off l :
  heap s !! b = Some l → off < length l →
  lvalue (Ptr b off) s = Normal (Ptr b off) s.
Proof. unfold lvalue. intros -> ?. by rewrite decide_True. Qed.

Lemma store_normal s b off l x :
  heap s !! b = Some l → off < length l →
  store (Ptr b off) x s
  = Normal () (State (objs s) (<[b := <[off := x]> l]> (heap s))).
Proof. unfold store. intros -> ?. by rewrite decide_True. Qed.

Lemma ptr_add_normal s b off n l :
  heap s !! b = Some l → off + n ≤ length l →
  ptr_add (Ptr b off) n s = Normal (Ptr b (off + n)) s.
Proof. unfold ptr_add. intros -> ?. by rewrite decide_True. Qed.

Lemma ptr_index_normal s b i l :
  heap s !! b = Some l → i < length l →
  ptr_index (Ptr b 0) i s = Normal (Ptr b i) s.
Proof.
  intros Hb Hi. unfold ptr_index.
  rewrite (bind_normal _ _ s (Ptr b i) s).
  - by apply lvalue_normal with l.
  - by apply (ptr_add_normal s b 0 i l); [|lia].
Qed.

(** What [contents] says about the fields. *)
Lemma contents_Some s this l :
  contents s this = Some l ↔
  ∃ d, objs s !! this = Some d ∧ m_size d = length l ∧
       ((m_data d = nullptr ∧ l = []) ∨
        (∃ b, m_data d = Ptr b 0 ∧ heap s !! b = Some l)).
Proof.
  unfold contents. split.
  - destruct (objs s !! this) as [[p n]|] eqn:Hd; simpl; [|done].
    destruct p as [|b [|off]]; [| |done].
    + destruct n; [|done]. intros [= <-]. exists (Dynarray nullptr 0). eauto.
    + destruct (heap s !! b) as [l'|] eqn:Hb; simpl; [|done].
      case_decide; [|done]. intros [= <-].
      exists (Dynarray (Ptr b 0) n). simpl. eauto 10.
  - intros (d & -> & Hn & [[Hp ->]|(b & Hp & Hb)]); simpl; rewrite Hp.
    + by rewrite Hn.
    + rewrite Hb. simpl. by rewrite decide_True.
Qed.

Lemma contents_size s this l :
  contents s this = Some l → size this s = Normal (length l) s.
Proof.
  intros ([p n] & Hd & Hn & _)%contents_Some. simpl in Hn. subst n.
  by eapply size_normal.
Qed.

Lemma contents_empty s this l :
  contents s this = Some l →
  empty this s = Normal (bool_decide (length l = 0)) s.
Proof.
  intros ([p n] & Hd & Hn & _)%contents_Some. simpl in Hn. subst n.
  by eapply empty_normal.
Qed.

(** Checked and unchecked access on an object that holds [l]. *)
Lemma contents_subscript s this l pos :
  contents s this = Some l → pos < length l →
  ∃ b, objs s !! this = Some (Dynarray (Ptr b 0) (length l)) ∧
       heap s !! b = Some l ∧
       subscript this pos s = Normal (Ptr b pos) s.
Proof.
  intros (d & Hd & Hn & [[_ ->]|(b & Hp & Hb)])%contents_Some Hpos;
    [simpl in Hpos; lia|].
  exists b. destruct d as [p n]; simpl in *; subst p n.
  split_and!; [done..|]. unfold subscript.
  erewrite bind_normal by by eapply get_data_normal.
  by apply ptr_index_normal with l.
Qed.

Lemma at_in_range s this n pos :
  size this s = Normal n s → pos < n →
  at_ this pos s = subscript this pos s.
Proof.
  intros Hn Hpos. unfold at_.
  rewrite (bind_normal _ _ _ _ _ Hn). rewrite decide_False; [done|lia].
Qed.

Lemma at_out_of_range s this n pos :
  size this s = Normal n s → n ≤ pos →
  at_ this pos s
  = Thrown (out_of_range
      ("cannot access element at position " ++ to_string pos ++
       " from a dynarray with size " ++ to_string n)%string) s.
Proof.
  intros Hn Hpos. unfold at_.
  rewrite (bind_normal _ _ _ _ _ Hn). by rewrite decide_True.
Qed.

Lemma contents_read s this l pos x :
  contents s this = Some l → l !! pos = Some x →
  read this pos s = Normal x s.
Proof.
  intros Hc Hx. assert (pos < length l) as Hpos by by eapply lookup_lt_Some.
  destruct (contents_subscript _ _ _ _ Hc Hpos) as (b & _ & Hb & Hsub).
  unfold read.
  rewrite (bind_normal _ _ s (Ptr b pos) s).
  - by apply load_normal with l.
  - rewrite <- Hsub. eapply at_in_range; [by apply contents_size|done].
Qed.

End basic_facts.

(** ** Objects that hold a sequence *)

Section boundaries.
Context {T : Type}.
Implicit Types (s : state T) (l : list T).

Lemma contents_cases s x l :
  contents s x = Some l →
  (objs s !! x = Some (Dynarray nullptr 0) ∧ l = []) ∨
  (∃ b, objs s !! x = Some (Dynarray (Ptr b 0) (length l)) ∧
        heap s !! b = Some l).
Proof.
  intros ([p n] & Hd & Hn & [[Hp ->]|(b & Hp & Hb)])%contents_Some;
    simpl in *; subst; eauto.
Qed.

Lemma contents_null s x :
  objs s !! x = Some (Dynarray nullptr 0) → contents s x = Some [].
Proof. intros Hx. apply contents_Some. eauto 10. Qed.

Lemma contents_ptr s x b l :
  objs s !! x = Some (Dynarray (Ptr b 0) (length l)) →
  heap s !! b = Some l → contents s x = Some l.
Proof. intros Hx Hb. apply contents_Some. eauto 10. Qed.

Lemma contents_ext s s' x y :
  objs s' !! x = objs s !! y → heap s' = heap s →
  contents s' x = contents s y.
Proof. unfold contents. by intros -> ->. Qed.

Lemma read_from_contents s x l n : ∀ i,
  contents s x = Some l → i + n = length l →
  read_from x i n s = Normal (drop i l) s.
Proof.
  induction n as [|n IH]; intros i Hc Hn; simpl.
  - by rewrite drop_ge by lia.
  - destruct (lookup_lt_is_Some_2 l i ltac:(lia)) as [v Hv].
    erewrite bind_normal by by eapply contents_read.
    erewrite bind_normal by (eapply IH; [done|lia]).
    by rewrite (drop_S l v i Hv).
Qed.

Lemma read_all_contents s x l :
  contents s x = Some l → read_all x s = Normal l s.
Proof.
  intros Hc. unfold read_all.
  erewrite bind_normal by by eapply contents_size.
  by rewrite (read_from_contents s x l (length l) 0).
Qed.

Lemma read_value s x l pos :
  contents s x = Some l → value_of (read x pos s) = l !! pos.
Proof.
  intros Hc. destruct (l !! pos) as [v|] eqn:Hv.
  - by rewrite (contents_read _ _ _ _ _ Hc Hv).
  - apply lookup_ge_None in Hv. unfold read.
    by erewrite bind_thrown
      by (eapply at_out_of_range; [by apply contents_size|done]).
Qed.

(** Beyond [size()] the unchecked access designates no element. *)
Lemma subscript_beyond s x l pos :
  contents s x = Some l → length l ≤ pos → subscript x pos s = Undefined.
Proof.
  intros [[Hx ->]|(b & Hx & Hb)]%contents_cases Hpos; unfold subscript.
  - erewrite bind_normal by by eapply get_data_normal.
    unfold ptr_index, ptr_add, lvalue. munfold. by destruct pos.
  - erewrite bind_normal by by eapply get_data_normal.
    unfold ptr_index, ptr_add, lvalue. munfold. rewrite Hb. simpl.
    case_decide; [|done]. simpl. rewrite Hb. rewrite decide_False; [done|lia].
Qed.

End boundaries.

(** ** Constructors and move-assignment, in terms of the memory *)

Section members.
Context {T : Type} `{!DefaultConstructible T, !FreeStore T}.
Implicit Types (s : state T) (l : list T) (d : dynarray).

Lemma fresh_block s : heap s !! fresh (dom (heap s)) = None.
Proof. apply not_elem_of_dom, is_fresh. Qed.

Lemma fresh_object s : objs s !! fresh (dom (objs s)) = None.
Proof. apply not_elem_of_dom, is_fresh. Qed.

(** The memory construction by count leaves when the array fits. *)
Lemma ctor_count_state s count :
  allocated (heap s) + count ≤ free_store →
  ctor_count count s
  = Normal (fresh (dom (objs s)))
      (State (<[fresh (dom (objs s))
                := Dynarray (Ptr (fresh (dom (heap s))) 0) count]> (objs s))
             (<[fresh (dom (heap s)) := default_init <$> seq 0 count]>
                (heap s))).
Proof.
  intros Hfits. unfold ctor_count, new_array, new_object. munfold.
  by rewrite decide_True.
Qed.

Lemma ctor_count_fails s count :
  free_store < allocated (heap s) + count →
  ctor_count count s = Thrown bad_alloc s.
Proof.
  intros Hfull. unfold ctor_count, new_array. munfold.
  rewrite decide_False; [done|lia].
Qed.

Lemma ctor_count_contents s count :
  allocated (heap s) + count ≤ free_store →
  ∃ this s', ctor_count count s = Normal this s' ∧
    objs s !! this = None ∧
    contents s' this = Some (default_init <$> seq 0 count).
Proof.
  intros Hfits. eexists _, _. split; [by apply ctor_count_state|].
  split; [apply fresh_object|].
  apply contents_ptr with (fresh (dom (heap s))); simpl.
  - by rewrite lookup_insert_eq, length_fmap, length_seq.
  - apply lookup_insert_eq.
Qed.

Lemma ctor_count_alloc_contents {A} `{!Allocator T A}
    s count (alloc : A) b s1 :
  allocates alloc count s b s1 →
  ∃ this s' l0, ctor_count_alloc count alloc s = Normal this s' ∧
    length l0 = count ∧ contents s' this = Some l0.
Proof.
  intros (Halloc & l0 & Hb & Hl0). unfold ctor_count_alloc.
  erewrite bind_normal by exact Halloc.
  eexists _, _, l0. unfold new_object. split_and!; [reflexivity|done|].
  apply contents_ptr with b; simpl; [|done].
  by rewrite lookup_insert_eq, Hl0.
Qed.

Lemma contents_insert_other s x p n b l' :
  objs s !! x = Some (Dynarray p n) → p ≠ Ptr b 0 →
  contents (State (objs s) (<[b := l']> (heap s))) x = contents s x.
Proof.
  intros Hx Hp. unfold contents. simpl. rewrite Hx. simpl.
  destruct p as [|b0 [|off]]; [done| |done].
  rewrite lookup_insert_ne by congruence. done.
Qed.

Lemma contents_new_object s x this d l :
  contents s x = Some l → objs s !! this = None →
  contents (State (<[this := d]> (objs s)) (heap s)) x = Some l.
Proof.
  intros Hc Hthis. rewrite <- Hc. apply contents_ext; [|done].
  simpl. apply lookup_insert_ne. intros ->.
  apply contents_Some in Hc as (? & ? & _). congruence.
Qed.

Lemma write_contents s x l pos v :
  contents s x = Some l → pos < length l →
  ∃ b, objs s !! x = Some (Dynarray (Ptr b 0) (length l)) ∧
       heap s !! b = Some l ∧
       write x pos v s
       = Normal () (State (objs s) (<[b := <[pos := v]> l]> (heap s))).
Proof.
  intros Hc Hpos.
  destruct (contents_subscript _ _ _ _ Hc Hpos) as (b & Hx & Hb & Hsub).
  exists b. split_and!; [done..|]. unfold write.
  erewrite bind_normal; cycle 1.
  { rewrite <- Hsub. eapply at_in_range; [by apply contents_size|done]. }
  by apply store_normal.
Qed.

(** The memory a move construction leaves: the new object has the
    source's pointer and size; the source keeps its size and holds a
    null pointer. *)
Lemma ctor_move_state s other p n :
  objs s !! other = Some (Dynarray p n) →
  ∃ this,
    objs s !! this = None ∧
    ctor_move other s
    = Normal this
        (State (<[this := Dynarray p n]>
                  (<[other := Dynarray nullptr n]> (objs s)))
               (heap s)).
Proof.
  intros Ho.
  set (s1 := State (<[other := Dynarray nullptr n]> (objs s)) (heap s)).
  pose proof (fresh_object s1) as Hfo. set (this := fresh _) in Hfo.
  assert (objs s1 !! other = Some (Dynarray nullptr n)) as Ho1
    by apply lookup_insert_eq.
  assert (this ≠ other) as Hne by congruence.
  exists this. split.
  - subst s1. simpl in Hfo. by rewrite lookup_insert_ne in Hfo.
  - unfold ctor_move.
    erewrite bind_normal by by eapply release_normal.
    fold s1. erewrite bind_normal by by eapply size_normal.
    reflexivity.
Qed.

(** The two swaps of move-assignment; [a] and [b] may be one object. *)
Lemma swap_data_state s a b p1 n1 p2 n2 :
  objs s !! a = Some (Dynarray p1 n1) →
  objs s !! b = Some (Dynarray p2 n2) →
  ∃ s', swap_data a b s = Normal () s' ∧ heap s' = heap s ∧
        objs s' !! a = Some (Dynarray p2 n1) ∧
        objs s' !! b = Some (Dynarray p1 n2) ∧
        ∀ x, x ≠ a → x ≠ b → objs s' !! x = objs s !! x.
Proof.
  intros Ha Hb. unfold swap_data.
  erewrite bind_normal by by eapply release_normal.
  destruct (decide (a = b)) as [->|Hne].
  - assert (p1 = p2 ∧ n1 = n2) as [-> ->] by (split; congruence).
    erewrite bind_normal; cycle 1.
    { erewrite bind_normal by (eapply release_normal; lookups).
      eapply set_data_normal; lookups. }
    eexists. split; [eapply set_data_normal; lookups|].
    split_and!; [done|lookups..|].
    intros x Hx _. simpl. by rewrite !lookup_insert_ne by done.
  - erewrite bind_normal; cycle 1.
    { erewrite bind_normal by (eapply release_normal; lookups).
      eapply set_data_normal; lookups. }
    eexists. split; [eapply set_data_normal; lookups|].
    split_and!; [done|lookups..|].
    intros x Hxa Hxb. simpl. by rewrite !lookup_insert_ne by done.
Qed.

Lemma swap_size_state s a b p1 n1 p2 n2 :
  objs s !! a = Some (Dynarray p1 n1) →
  objs s !! b = Some (Dynarray p2 n2) →
  ∃ s', swap_size a b s = Normal () s' ∧ heap s' = heap s ∧
        objs s' !! a = Some (Dynarray p1 n2) ∧
        objs s' !! b = Some (Dynarray p2 n1) ∧
        ∀ x, x ≠ a → x ≠ b → objs s' !! x = objs s !! x.
Proof.
  intros Ha Hb. unfold swap_size.
  erewrite bind_normal by by eapply get_size_normal.
  destruct (decide (a = b)) as [->|Hne].
  - assert (p1 = p2 ∧ n1 = n2) as [-> ->] by (split; congruence).
    erewrite bind_normal; cycle 1.
    { erewrite bind_normal by by eapply get_size_normal.
      by eapply set_size_normal. }
    eexists. split; [eapply set_size_normal; lookups|].
    split_and!; [done|lookups..|].
    intros x Hx _. simpl. by rewrite !lookup_insert_ne by done.
  - erewrite bind_normal; cycle 1.
    { erewrite bind_normal by by eapply get_size_normal.
      by eapply set_size_normal. }
    eexists. split; [eapply set_size_normal; lookups|].
    split_and!; [done|lookups..|].
    intros x Hxa Hxb. simpl. by rewrite !lookup_insert_ne by done.
Qed.

(** Move-assignment exchanges the fields of the two objects and touches
    nothing else. *)
Lemma assign_move_state s this other d1 d2 :
  objs s !! this = Some d1 → objs s !! other = Some d2 →
  ∃ s', assign_move this other s = Normal this s' ∧ heap s' = heap s ∧
        objs s' !! this = Some d2 ∧
        objs s' !! other = Some d1 ∧
        ∀ x, x ≠ this → x ≠ other → objs s' !! x = objs s !! x.
Proof.
  destruct d1 as [p1 n1], d2 as [p2 n2]. intros Ht Ho.
  destruct (swap_data_state s this other _ _ _ _ Ht Ho)
    as (s1 & Hswap1 & Hheap1 & Ht1 & Ho1 & Hframe1).
  destruct (swap_size_state s1 this other _ _ _ _ Ht1 Ho1)
    as (s2 & Hswap2 & Hheap2 & Ht2 & Ho2 & Hframe2).
  exists s2. unfold assign_move.
  erewrite bind_normal by exact Hswap1.
  erewrite bind_normal by exact Hswap2.
  split_and!; [done|congruence|done..|].
  intros x Hxt Hxo. by rewrite Hframe2, Hframe1.
Qed.

End members.

(** * The properties of the specification *)

Section capacity_and_access.
Context {T : Type} `{!DefaultConstructible T, !FreeStore T}.
Implicit Types (s : state T) (l : list T).

Lemma subscript_never_throws s this pos e s' :
  subscript this pos s ≠ Thrown e s'.
Proof.
  unfold subscript, get_data, get, ptr_index, ptr_add, lvalue. munfold.
  repeat (case_match; try done).
Qed.


(** C10. Below [size()], the checked access [at(pos)] and the unchecked
    access [operator[](pos)] designate the same element. *)
Theorem at_subscript_agree s this n pos :
  size this s = Normal n s → pos < n →
  at_ this pos s = subscript this pos s ∧
  ∀ l, contents s this = Some l →
    ∃ r x, l !! pos = Some x ∧
      at_ this pos s = Normal r s ∧ subscript this pos s = Normal r s ∧
      load r s = Normal x s.
Proof.
  intros Hn Hpos. pose proof (at_in_range s this n pos Hn Hpos) as Heq.
  split; [done|]. intros l Hc.
  assert (n = length l) as ->.
  { apply contents_size in Hc. congruence. }
  destruct (contents_subscript _ _ _ _ Hc Hpos) as (b & _ & Hb & Hsub).
  destruct (lookup_lt_is_Some_2 l pos Hpos) as [x Hx].
  exists (Ptr b pos), x. split_and!; [done|congruence|done|].
  by apply load_normal with l.
Qed.

(** C3. [at(pos)] throws [out_of_range] exactly when [pos >= size()];
    the message carries [pos] and the size, and the memory at the throw
    is the memory before the call.  Otherwise it returns the element at
    [pos]. *)
Theorem at_spec s this n pos :
  size this s = Normal n s →
  ((∃ what s', at_ this pos s = Thrown (out_of_range what) s') ↔ n ≤ pos) ∧
  (n ≤ pos →
     at_ this pos s
     = Thrown (out_of_range
         ("cannot access element at position " ++ to_string pos ++
          " from a dynarray with size " ++ to_string n)%string) s) ∧
  (∀ l, contents s this = Some l → pos < n →
     ∃ r x, l !! pos = Some x ∧
       at_ this pos s = Normal r s ∧ load r s = Normal x s).
Proof.
  intros Hn. split_and!.
  - split.
    + intros (what & s' & Hthrow).
      destruct (decide (n ≤ pos)) as [|Hlt]; [done|].
      rewrite (at_in_range s this n pos Hn) in Hthrow by lia.
      by apply subscript_never_throws in Hthrow.
    + intros Hge. eexists _, _. by apply at_out_of_range.
  - by apply at_out_of_range.
  - intros l Hc Hpos.
    assert (n = length l) as ->.
    { apply contents_size in Hc. congruence. }
    destruct (contents_subscript _ _ _ _ Hc Hpos) as (b & _ & Hb & Hsub).
    destruct (lookup_lt_is_Some_2 l pos Hpos) as [x Hx].
    exists (Ptr b pos), x. split_and!; [done| |by apply load_normal with l].
    by rewrite (at_in_range s this (length l) pos Hn Hpos).
Qed.

End capacity_and_access.

Section instantiation.
Context {T : Type}.
Context `{!DefaultConstructible T, !FreeStore T, !Algorithms T}.

(** C8. [begin()] and [end()] call [m_data.data()], a member
    [std::unique_ptr<T[]>] does not have, and [rbegin()] and [rend()]
    call them: none of the four has an instantiation, so no traversal of
    a dynarray compiles. *)
Theorem iterators_ill_formed :
  begin (T := T) = None ∧ end_ (T := T) = None ∧
  rbegin (T := T) = None ∧ rend (T := T) = None.
Proof. unfold rbegin, rend, end_, begin, unique_ptr_data. by split_and!. Qed.

(** C7. [fill] is [std::fill(begin(), end(), value)]: it has no
    instantiation, whatever the element type and whatever [std::fill]
    does. *)
Theorem fill_ill_formed : fill (T := T) = None.
Proof. unfold fill, end_, begin, unique_ptr_data. reflexivity. Qed.

(** C5. The copy constructor copies from [other.begin()] to [begin()]:
    it has no instantiation. *)
Theorem ctor_copy_ill_formed : ctor_copy (T := T) = None.
Proof. unfold ctor_copy, end_, begin, unique_ptr_data. reflexivity. Qed.

(** C6. The initializer-list constructor copies to [begin()]: it has no
    instantiation. *)
Theorem ctor_list_ill_formed : ctor_list (T := T) = None.
Proof. unfold ctor_list, begin, unique_ptr_data. reflexivity. Qed.

(** C2. Both copy-assignment operators copy to [begin()]: neither has an
    instantiation, so neither the size check nor the copy is ever
    run. *)
Theorem assign_copy_ill_formed :
  assign_copy (T := T) = None ∧ assign_list (T := T) = None.
Proof.
  unfold assign_copy, assign_list, end_, begin, unique_ptr_data. by split.
Qed.

End instantiation.

Section ownership.
Context {T : Type} `{!DefaultConstructible T, !FreeStore T}.
Implicit Types (s : state T) (l : list T).

(** C1, as the code has it. Move construction gives the new object the
    source's size and elements.  The source is left with a null data
    pointer and with the size it had: [size()] on it afterwards is its
    original size, which is 0 only if it was empty. *)
Theorem ctor_move_spec s other l :
  contents s other = Some l →
  ∃ this s', ctor_move other s = Normal this s' ∧
    this ≠ other ∧
    size this s' = Normal (length l) s' ∧
    read_all this s' = Normal l s' ∧
    contents s' this = Some l ∧
    get_data other s' = Normal nullptr s' ∧
    size other s' = Normal (length l) s'.
Proof.
  intros Hc.
  destruct (proj1 (contents_Some _ _ _) Hc) as ([p n] & Ho & Hn & _).
  simpl in Hn; subst n.
  destruct (ctor_move_state s other p (length l) Ho) as (this & Hthis & Hrun).
  assert (this ≠ other) as Hne by congruence.
  eexists this, _. split; [exact Hrun|].
  set (s' := State _ _).
  assert (contents s' this = Some l) as Hc'.
  { rewrite <- Hc. apply contents_ext; [|done]. subst s'. simpl.
    by rewrite lookup_insert_eq, Ho. }
  assert (objs s' !! other = Some (Dynarray nullptr (length l))) as Ho'
    by (subst s'; lookups).
  split_and!; [done| | |done| |].
  - by apply contents_size.
  - by apply read_all_contents.
  - by eapply get_data_normal.
  - by eapply size_normal.
Qed.

(** C4. Move-assignment exchanges the data pointer and the size of the
    two objects, whatever their sizes: afterwards each reports the size
    and holds the elements the other had, and the arrays themselves are
    untouched. *)
Theorem assign_move_spec s this other d1 d2 :
  objs s !! this = Some d1 → objs s !! other = Some d2 →
  ∃ s', assign_move this other s = Normal this s' ∧
    heap s' = heap s ∧
    objs s' !! this = Some d2 ∧ objs s' !! other = Some d1 ∧
    size this s' = Normal (m_size d2) s' ∧
    size other s' = Normal (m_size d1) s' ∧
    contents s' this = contents s other ∧
    contents s' other = contents s this.
Proof.
  intros Ht Ho.
  destruct (assign_move_state s this other d1 d2 Ht Ho)
    as (s' & Hrun & Hheap & Ht' & Ho' & _).
  exists s'. destruct d1 as [p1 n1], d2 as [p2 n2].
  split_and!; [done..| | | |].
  - by eapply size_normal.
  - by eapply size_normal.
  - apply contents_ext; [congruence|done].
  - apply contents_ext; [congruence|done].
Qed.

End ownership.

(** ** The properties at concrete memories *)

(** C1 as the specification states it fails on the source object: [src]
    built from [{1, 2, 3}] and then moved from still reports size 3. *)
Lemma ctor_move_source_size_counterexample :
  value_of (moved_from initial) = Some (1%positive, 2%positive) ∧
  contents (final moved_from) 2 = Some [1; 2; 3] ∧
  size 1 (final moved_from) = Normal 3 (final moved_from) ∧
  size 1 (final moved_from) ≠ Normal 0 (final moved_from).
Proof.
  split_and!; [vm_compute; reflexivity..|].
  intros H. vm_compute in H. discriminate H.
Qed.

(** On that source the bounds check of [at] passes and the access then
    goes through the null pointer. *)
Example moved_from_access :
  at_ 1 0 (final moved_from) = Undefined ∧
  subscript 1 0 (final moved_from) = Undefined.
Proof. split; vm_compute; reflexivity. Qed.

Lemma ctor_move_spec_witness :
  contents (final sample) 1 = Some [1; 2; 3] ∧
  ∃ this s', ctor_move 1 (final sample) = Normal this s' ∧
    this ≠ 1%positive ∧
    size this s' = Normal 3 s' ∧
    read_all this s' = Normal [1; 2; 3] s' ∧
    contents s' this = Some [1; 2; 3] ∧
    get_data 1 s' = Normal nullptr s' ∧
    size 1 s' = Normal 3 s'.
Proof.
  split; [vm_compute; reflexivity|].
  apply (ctor_move_spec (final sample) 1 [1; 2; 3]).
  vm_compute; reflexivity.
Defined.

Lemma at_spec_witness :
  at_ 1 3 (final sample)
  = Thrown (out_of_range
      "cannot access element at position 3 from a dynarray with size 3")
      (final sample) ∧
  ∃ r, at_ 1 1 (final sample) = Normal r (final sample) ∧
       load r (final sample) = Normal 2 (final sample).
Proof.
  assert (size 1 (final sample) = Normal 3 (final sample)) as Hsize
    by (vm_compute; reflexivity).
  split.
  - apply (at_spec (final sample) 1 3 3 Hsize). lia.
  - destruct (at_spec (final sample) 1 3 1 Hsize) as (_ & _ & Hat).
    destruct (Hat [1; 2; 3]) as (r & x & Hx & Hr & Hload);
      [vm_compute; reflexivity|lia|].
    exists r. split; [exact Hr|]. simpl in Hx. congruence.
Defined.

Lemma assign_move_spec_witness :
  ∃ s', assign_move 1 2 (final sample) = Normal 1%positive s' ∧
    size 1 s' = Normal 5 s' ∧ size 2 s' = Normal 3 s' ∧
    contents s' 1 = Some [0; 0; 0; 0; 0] ∧
    contents s' 2 = Some [1; 2; 3].
Proof.
  destruct (assign_move_spec (final sample) 1 2
              (Dynarray (Ptr 1 0) 3) (Dynarray (Ptr 2 0) 5))
    as (s' & Hrun & _ & _ & _ & Hs1 & Hs2 & Hc1 & Hc2);
    [vm_compute; reflexivity..|].
  exists s'. split_and!; [exact Hrun|exact Hs1|exact Hs2| |].
  - rewrite Hc1. vm_compute; reflexivity.
  - rewrite Hc2. vm_compute; reflexivity.
Defined.

Lemma at_subscript_agree_witness :
  at_ 1 1 (final sample) = subscript 1 1 (final sample) ∧
  ∃ r, at_ 1 1 (final sample) = Normal r (final sample) ∧
       subscript 1 1 (final sample) = Normal r (final sample) ∧
       load r (final sample) = Normal 2 (final sample).
Proof.
  destruct (at_subscript_agree (final sample) 1 3 1) as [Heq Helem];
    [vm_compute; reflexivity|lia|].
  split; [exact Heq|].
  destruct (Helem [1; 2; 3]) as (r & x & Hx & Hat & Hsub & Hload);
    [vm_compute; reflexivity|].
  exists r. split_and!; [exact Hat|exact Hsub|].
  simpl in Hx. congruence.
Defined.



(** * Further properties of the member functions *)

Section element_access.
Context {T : Type} `{!DefaultConstructible T, !FreeStore T}.
Implicit Types (s : state T) (l : list T).

(** [front()] and [back()] on a dynarray that holds at least one element
    designate the elements at offsets 0 and [size() - 1], the ones
    [at(0)] and [at(size() - 1)] return. *)
Theorem front_back_nonempty s this l :
  contents s this = Some l → l ≠ [] →
  ∃ rf rb xf xb,
    front this s = Normal rf s ∧ at_ this 0 s = Normal rf s ∧
    back this s = Normal rb s ∧ at_ this (length l - 1) s = Normal rb s ∧
    load rf s = Normal xf s ∧ head l = Some xf ∧
    load rb s = Normal xb s ∧ last l = Some xb.
Proof.
  intros Hc Hne.
  assert (0 < length l) as Hlen by (destruct l; [done|simpl; lia]).
  pose proof (contents_size _ _ _ Hc) as Hsize.
  destruct (contents_subscript _ _ _ 0 Hc Hlen) as (b & Hx & Hb & Hsub0).
  destruct (contents_subscript _ _ _ (length l - 1) Hc ltac:(lia))
    as (b' & Hx' & _ & Hsubn).
  assert (b' = b) as -> by congruence.
  destruct (lookup_lt_is_Some_2 l 0 Hlen) as [xf Hxf].
  destruct (lookup_lt_is_Some_2 l (length l - 1) ltac:(lia)) as [xb Hxb].
  exists (Ptr b 0), (Ptr b (length l - 1)), xf, xb. split_and!.
  - exact Hsub0.
  - by rewrite (at_in_range s this (length l) 0 Hsize Hlen).
  - unfold back. erewrite bind_normal by exact Hsize.
    destruct (length l) as [|k] eqn:Hk; [lia|].
    replace (S k - 1) with k in * by lia. exact Hsubn.
  - by rewrite (at_in_range s this (length l) _ Hsize) by lia.
  - by apply load_normal with l.
  - by rewrite head_lookup.
  - by apply load_normal with l.
  - rewrite last_lookup. by replace (pred (length l)) with (length l - 1) by lia.
Qed.

(** [front()] and [back()] on an empty dynarray are undefined behaviour:
    neither returns nor throws. *)
Theorem front_back_empty s this :
  contents s this = Some [] →
  front this s = Undefined ∧ back this s = Undefined.
Proof.
  intros Hc. split.
  - unfold front.
    destruct (contents_cases _ _ _ Hc) as [[Hx _]|(b & Hx & Hb)].
    + erewrite bind_normal by by eapply get_data_normal. done.
    + erewrite bind_normal by by eapply get_data_normal.
      unfold ptr_index.
      erewrite bind_normal by by eapply (ptr_add_normal s b 0 0 []).
      unfold lvalue. simpl. rewrite Hb. done.
  - unfold back. by erewrite bind_normal by by eapply (contents_size _ _ []).
Qed.

(** Where [at] throws, [operator[]] is undefined behaviour: at an offset
    not below [size()] the checked access throws [out_of_range] and the
    unchecked access neither returns nor throws. *)
Theorem subscript_out_of_range s this l pos :
  contents s this = Some l → length l ≤ pos →
  subscript this pos s = Undefined ∧
  ∃ what, at_ this pos s = Thrown (out_of_range what) s.
Proof.
  intros Hc Hpos. split; [by eapply subscript_beyond|].
  eexists. apply at_out_of_range; [by apply contents_size|done].
Qed.

(** The reference [at] returns designates the element inside the
    dynarray: a value written through it is the value read back at
    that offset, and every other offset reads as before. *)
Theorem write_then_read s this l pos (v : T) :
  contents s this = Some l → pos < length l →
  ∃ s', write this pos v s = Normal () s' ∧
    size this s' = Normal (length l) s' ∧
    read this pos s' = Normal v s' ∧
    ∀ q, q ≠ pos → value_of (read this q s') = value_of (read this q s).
Proof.
  intros Hc Hpos.
  destruct (write_contents s this l pos v Hc Hpos)
    as (b & Hx & Hb & Hwrite).
  eexists. split; [exact Hwrite|]. set (s' := State _ _).
  assert (contents s' this = Some (<[pos := v]> l)) as Hc'.
  { apply contents_ptr with b; subst s'; simpl.
    - by rewrite length_insert.
    - apply lookup_insert_eq. }
  split_and!.
  - apply contents_size in Hc'. by rewrite length_insert in Hc'.
  - eapply contents_read; [done|]. by apply list_lookup_insert_eq.
  - intros q Hq. rewrite (read_value _ _ _ _ Hc'), (read_value _ _ _ _ Hc).
    by apply list_lookup_insert_ne.
Qed.

(** A dynarray constructed by count owns a new array: every dynarray
    that held a sequence still holds it, and a write through the new
    object is read back there and leaves the others as they were. *)
Theorem ctor_count_independent s count x l :
  allocated (heap s) + count ≤ free_store →
  contents s x = Some l →
  ∃ this s', ctor_count count s = Normal this s' ∧
    this ≠ x ∧
    contents s' x = Some l ∧
    ∀ pos v, pos < count →
      ∃ s'', write this pos v s' = Normal () s'' ∧
        read this pos s'' = Normal v s'' ∧
        contents s'' x = Some l.
Proof.
  intros Hfits Hc.
  set (b := fresh (dom (heap s))). set (this := fresh (dom (objs s))).
  pose proof (fresh_block s) as Hfb. pose proof (fresh_object s) as Hfo.
  fold b in Hfb. fold this in Hfo.
  set (l0 := default_init <$> seq 0 count).
  assert (length l0 = count) as Hl0
    by (subst l0; by rewrite length_fmap, length_seq).
  destruct (proj1 (contents_Some _ _ _) Hc)
    as ([px nx] & Hx & Hnx & Hshape); simpl in Hnx, Hshape; subst nx.
  assert (this ≠ x) as Hne by congruence.
  assert (px ≠ Ptr b 0) as Hpx.
  { destruct Hshape as [[-> _]|(bx & -> & Hbx)]; [done|]. congruence. }
  eexists this, _. split; [by apply ctor_count_state|].
  fold b this l0. set (s' := State _ _).
  assert (objs s' !! x = Some (Dynarray px (length l))) as Hx'
    by (subst s'; lookups).
  assert (contents s' this = Some l0) as Hct.
  { apply contents_ptr with b; subst s'; simpl.
    - by rewrite lookup_insert_eq, Hl0.
    - apply lookup_insert_eq. }
  assert (contents s' x = Some l) as Hcx.
  { rewrite <- Hc.
    rewrite <- (contents_insert_other s x px (length l) b l0 Hx Hpx).
    by apply contents_ext; [subst s'; lookups|]. }
  split_and!; [done..|].
  intros pos v Hpos. rewrite <- Hl0 in Hpos.
  destruct (write_contents s' this l0 pos v Hct Hpos)
    as (b' & Ht' & Hb' & Hwrite).
  assert (b' = b) as -> by (subst s'; simpl in *;
    rewrite lookup_insert_eq in Ht'; congruence).
  eexists. split; [exact Hwrite|]. split.
  - eapply contents_read; [|by apply list_lookup_insert_eq].
    apply contents_ptr with b; simpl.
    + by rewrite length_insert.
    + apply lookup_insert_eq.
  - by erewrite contents_insert_other.
Qed.

End element_access.

Section moves.
Context {T : Type} `{!DefaultConstructible T, !FreeStore T}.
Implicit Types (s : state T) (l : list T).

Lemma state_ext s s' :
  heap s' = heap s → (∀ x, objs s' !! x = objs s !! x) → s' = s.
Proof.
  destruct s as [o h], s' as [o' h']; simpl. intros -> Hobjs.
  f_equal. by apply map_eq.
Qed.

(** An object whose pointer is null and whose size is not 0: the bounds
    check of [at] passes and the access is undefined. *)
Lemma vacated_undefined s x n :
  objs s !! x = Some (Dynarray nullptr (S n)) →
  contents s x = None ∧
  front x s = Undefined ∧ back x s = Undefined ∧
  ∀ pos, pos < S n →
    at_ x pos s = Undefined ∧ subscript x pos s = Undefined.
Proof.
  intros Hx.
  assert (∀ pos, subscript x pos s = Undefined) as Hsub.
  { intros pos. unfold subscript.
    erewrite bind_normal by by eapply get_data_normal.
    unfold ptr_index, ptr_add, lvalue. munfold. by destruct pos. }
  split_and!.
  - unfold contents. by rewrite Hx.
  - apply (Hsub 0).
  - unfold back. erewrite bind_normal by by eapply size_normal.
    apply (Hsub n).
  - intros pos Hpos. split; [|done].
    rewrite (at_in_range s x (S n) pos); [done| |done].
    by eapply size_normal.
Qed.

(** After move construction from a dynarray that holds at least one
    element, the source is not usable as a dynarray: it holds no
    sequence, and [front()], [back()] and every in-range [at] and
    [operator[]] on it are undefined behaviour.  Out-of-range [at] on it
    still throws. *)
Theorem ctor_move_source_unusable s other l :
  contents s other = Some l → l ≠ [] →
  ∃ this s', ctor_move other s = Normal this s' ∧
    contents s' other = None ∧
    front other s' = Undefined ∧ back other s' = Undefined ∧
    (∀ pos, pos < length l →
       at_ other pos s' = Undefined ∧ subscript other pos s' = Undefined) ∧
    (∀ pos, length l ≤ pos →
       ∃ what, at_ other pos s' = Thrown (out_of_range what) s').
Proof.
  intros Hc Hne.
  destruct (proj1 (contents_Some _ _ _) Hc) as ([p n] & Ho & Hn & _).
  simpl in Hn; subst n.
  destruct (ctor_move_state s other p (length l) Ho) as (this & Hthis & Hrun).
  assert (this ≠ other) as Hneq by congruence.
  eexists this, _. split; [exact Hrun|]. set (s' := State _ _).
  destruct (length l) as [|n] eqn:Hlen; [by destruct l|].
  assert (objs s' !! other = Some (Dynarray nullptr (S n))) as Ho'
    by (subst s'; lookups).
  destruct (vacated_undefined s' other n Ho') as (H1 & H2 & H3 & H4).
  split_and!; [done..|].
  intros pos Hpos. eexists. apply at_out_of_range; [|done].
  by eapply size_normal.
Qed.

(** Move-assigning the moved-to object back into the source it was
    constructed from gives the source its elements again, and leaves the
    other object with a null pointer and the size. *)
Theorem ctor_move_then_assign_back s src l :
  contents s src = Some l →
  ∃ new s1 s2,
    ctor_move src s = Normal new s1 ∧
    assign_move src new s1 = Normal src s2 ∧
    contents s2 src = Some l ∧
    read_all src s2 = Normal l s2 ∧
    get_data new s2 = Normal nullptr s2 ∧
    size new s2 = Normal (length l) s2.
Proof.
  intros Hc.
  destruct (proj1 (contents_Some _ _ _) Hc) as ([p n] & Ho & Hn & _).
  simpl in Hn; subst n.
  destruct (ctor_move_state s src p (length l) Ho) as (new & Hnew & Hrun).
  assert (new ≠ src) as Hneq by congruence.
  set (s1 := State (<[new := Dynarray p (length l)]>
                      (<[src := Dynarray nullptr (length l)]> (objs s)))
                   (heap s)) in *.
  assert (objs s1 !! src = Some (Dynarray nullptr (length l))) as Hs1
    by (subst s1; lookups).
  assert (objs s1 !! new = Some (Dynarray p (length l))) as Hn1
    by (subst s1; lookups).
  destruct (assign_move_state s1 src new _ _ Hs1 Hn1)
    as (s2 & Hrun2 & Hheap & Hs2 & Hn2 & _).
  exists new, s1, s2.
  assert (contents s2 src = Some l) as Hc2.
  { rewrite <- Hc. apply contents_ext; [congruence|by rewrite Hheap]. }
  split_and!; [done..|by apply read_all_contents| |].
  - by eapply get_data_normal.
  - by eapply size_normal.
Qed.

(** Move construction allocates nothing and writes no element: the
    arrays are as they were, every element of the new object is the
    element the source had at that offset, at the same place, and no
    third object changes. *)
Theorem ctor_move_transfers_array s other l :
  contents s other = Some l →
  ∃ this s', ctor_move other s = Normal this s' ∧
    heap s' = heap s ∧
    (∀ pos, pos < length l →
       ∃ r, subscript other pos s = Normal r s ∧
            subscript this pos s' = Normal r s') ∧
    ∀ x, x ≠ this → x ≠ other → objs s' !! x = objs s !! x.
Proof.
  intros Hc.
  destruct (proj1 (contents_Some _ _ _) Hc) as ([p n] & Ho & Hn & _).
  simpl in Hn; subst n.
  destruct (ctor_move_state s other p (length l) Ho) as (this & Hthis & Hrun).
  eexists this, _. split; [exact Hrun|]. set (s' := State _ _).
  assert (contents s' this = Some l) as Hc'.
  { rewrite <- Hc. apply contents_ext; [|done]. subst s'. simpl.
    by rewrite lookup_insert_eq, Ho. }
  split_and!; [done| |].
  - intros pos Hpos.
    destruct (contents_subscript _ _ _ _ Hc Hpos) as (b & Hx & Hb & Hsub).
    destruct (contents_subscript _ _ _ _ Hc' Hpos) as (b' & Hx' & Hb' & Hsub').
    assert (b' = b) as ->.
    { subst s'. simpl in Hx'. rewrite lookup_insert_eq in Hx'. congruence. }
    by exists (Ptr b pos).
  - intros x Hxt Hxo. simpl. by rewrite !lookup_insert_ne by done.
Qed.

(** Move-assignment is its own inverse: doing it twice gives back the
    memory it started from. *)
Theorem assign_move_twice s this other d1 d2 :
  objs s !! this = Some d1 → objs s !! other = Some d2 →
  ∃ s1, assign_move this other s = Normal this s1 ∧
        assign_move this other s1 = Normal this s.
Proof.
  intros Ht Ho.
  destruct (assign_move_state s this other d1 d2 Ht Ho)
    as (s1 & Hrun1 & Hheap1 & Ht1 & Ho1 & Hframe1).
  destruct (assign_move_state s1 this other d2 d1 Ht1 Ho1)
    as (s2 & Hrun2 & Hheap2 & Ht2 & Ho2 & Hframe2).
  exists s1. split; [done|]. rewrite Hrun2. f_equal.
  apply state_ext; [congruence|]. intros x.
  destruct (decide (x = this)) as [->|Hxt]; [congruence|].
  destruct (decide (x = other)) as [->|Hxo]; [congruence|].
  by rewrite Hframe2, Hframe1.
Qed.

(** Move-assignment of a dynarray to itself leaves the memory as it
    was. *)
Theorem assign_move_self s this d :
  objs s !! this = Some d →
  assign_move this this s = Normal this s.
Proof.
  intros Ht.
  destruct (assign_move_state s this this d d Ht Ht)
    as (s1 & Hrun & Hheap & Ht1 & _ & Hframe).
  rewrite Hrun. f_equal. apply state_ext; [done|]. intros x.
  destruct (decide (x = this)) as [->|Hxt]; [congruence|]. by apply Hframe.
Qed.

End moves.

Section effects.
Context {T : Type} `{!DefaultConstructible T, !FreeStore T}.
Implicit Types (s : state T) (l : list T).

(** *** Computations that leave the memory alone *)

Lemma readonly_ret {A} (a : A) : readonly (mret a : M T A).
Proof. by intros s. Qed.

Lemma readonly_bind {A B} (m : M T A) (k : A → M T B) :
  readonly m → (∀ a, readonly (k a)) → readonly (m ≫= k).
Proof.
  intros Hm Hk s. munfold. specialize (Hm s).
  destruct (m s) as [a s1|e s1|]; [|done..]. subst s1. apply Hk.
Qed.

Lemma readonly_throw {A} e : readonly (throw e : M T A).
Proof. by intros s. Qed.

Lemma readonly_undefined {A} : readonly (undefined : M T A).
Proof. by intros s. Qed.

Lemma readonly_get x : readonly (get x : M T dynarray).
Proof. intros s. unfold get. simpl. repeat case_match; by simplify_eq. Qed.

Lemma readonly_lvalue p : readonly (lvalue p : M T pointer).
Proof. intros s. unfold lvalue. simpl. repeat case_match; by simplify_eq. Qed.

Lemma readonly_ptr_add p n : readonly (ptr_add p n : M T pointer).
Proof. intros s. unfold ptr_add. simpl. repeat case_match; by simplify_eq. Qed.

Lemma readonly_get_data x : readonly (get_data x : M T pointer).
Proof. apply readonly_bind; [apply readonly_get|intros; apply readonly_ret]. Qed.

Lemma readonly_get_size x : readonly (get_size x : M T nat).
Proof. apply readonly_bind; [apply readonly_get|intros; apply readonly_ret]. Qed.

Lemma readonly_ptr_index p i : readonly (ptr_index p i : M T pointer).
Proof.
  apply readonly_bind; [apply readonly_ptr_add|intros; apply readonly_lvalue].
Qed.

Lemma readonly_subscript this pos : readonly (subscript this pos : M T pointer).
Proof.
  apply readonly_bind; [apply readonly_get_data|intros; apply readonly_ptr_index].
Qed.

Lemma readonly_at this pos : readonly (at_ this pos : M T pointer).
Proof.
  apply readonly_bind; [apply readonly_get_size|intros n].
  case_decide; [apply readonly_throw|apply readonly_subscript].
Qed.


(** *** Computations that never throw *)

Lemma nothrow_ret {A} (a : A) : nothrow (mret a : M T A).
Proof. by intros s e s'. Qed.

Lemma nothrow_bind {A B} (m : M T A) (k : A → M T B) :
  nothrow m → (∀ a, nothrow (k a)) → nothrow (m ≫= k).
Proof.
  intros Hm Hk s e s'. munfold. specialize (Hm s).
  destruct (m s) as [a s1|e1 s1|]; [apply Hk|by destruct (Hm e1 s1)|done].
Qed.

Lemma nothrow_get x : nothrow (get x : M T dynarray).
Proof. intros s e s'. unfold get. simpl. by repeat case_match. Qed.

Lemma nothrow_put x d : nothrow (put x d : M T unit).
Proof. intros s e s'. unfold put. simpl. by repeat case_match. Qed.

Lemma nothrow_lvalue p : nothrow (lvalue p : M T pointer).
Proof. intros s e s'. unfold lvalue. simpl. by repeat case_match. Qed.

Lemma nothrow_ptr_add p n : nothrow (ptr_add p n : M T pointer).
Proof. intros s e s'. unfold ptr_add. simpl. by repeat case_match. Qed.

Lemma nothrow_new_object d : nothrow (new_object d : M T objref).
Proof. by intros s e s'. Qed.

Lemma nothrow_undefined {A} : nothrow (undefined : M T A).
Proof. by intros s e s'. Qed.

(** Chains of binds over computations that never throw. *)
Ltac nothrow_chain :=
  repeat first
    [ apply nothrow_ret | apply nothrow_undefined
    | apply nothrow_get | apply nothrow_put
    | apply nothrow_lvalue | apply nothrow_ptr_add
    | apply nothrow_new_object
    | apply nothrow_bind; [|intros ?] ].


End effects.

(** ** The further properties at concrete memories *)

Lemma front_back_nonempty_witness :
  ∃ rf rb,
    front 1 (final sample) = Normal rf (final sample) ∧
    back 1 (final sample) = Normal rb (final sample) ∧
    load rf (final sample) = Normal 1 (final sample) ∧
    load rb (final sample) = Normal 3 (final sample).
Proof.
  destruct (front_back_nonempty (final sample) 1 [1; 2; 3])
    as (rf & rb & xf & xb & Hf & _ & Hb & _ & Hlf & Hxf & Hlb & Hxb);
    [vm_compute; reflexivity|done|].
  exists rf, rb. simpl in Hxf, Hxb.
  split_and!; [exact Hf|exact Hb|congruence|congruence].
Defined.

Lemma front_back_empty_witness :
  contents (final (ctor_count 0)) 1 = Some [] ∧
  front 1 (final (ctor_count 0)) = Undefined ∧
  back 1 (final (ctor_count 0)) = Undefined.
Proof.
  split; [vm_compute; reflexivity|].
  apply (front_back_empty (final (ctor_count 0)) 1).
  vm_compute; reflexivity.
Defined.

Lemma subscript_out_of_range_witness :
  subscript 1 3 (final sample) = Undefined ∧
  ∃ what, at_ 1 3 (final sample) = Thrown (out_of_range what) (final sample).
Proof.
  apply (subscript_out_of_range (final sample) 1 [1; 2; 3]);
    [vm_compute; reflexivity|simpl; lia].
Defined.

Lemma write_then_read_witness :
  ∃ s', write 1 1 9 (final sample) = Normal () s' ∧
    size 1 s' = Normal 3 s' ∧
    read 1 1 s' = Normal 9 s' ∧
    value_of (read 1 0 s') = value_of (read 1 0 (final sample)).
Proof.
  destruct (write_then_read (final sample) 1 [1; 2; 3] 1 9)
    as (s' & Hrun & Hsize & Hread & Hother);
    [vm_compute; reflexivity|simpl; lia|].
  exists s'. split_and!; [exact Hrun|exact Hsize|exact Hread|].
  apply Hother. lia.
Defined.

Lemma ctor_count_independent_witness :
  ∃ this s', ctor_count 2 (final sample) = Normal this s' ∧
    this ≠ 1%positive ∧
    contents s' 1 = Some [1; 2; 3] ∧
    ∃ s'', write this 0 9 s' = Normal () s'' ∧
      read this 0 s'' = Normal 9 s'' ∧
      contents s'' 1 = Some [1; 2; 3].
Proof.
  destruct (ctor_count_independent (T := nat) (final sample) 2 1 [1; 2; 3])
    as (this & s' & Hrun & Hne & Hc & Hw);
    [vm_compute; lia|vm_compute; reflexivity|].
  exists this, s'. split_and!; [exact Hrun|exact Hne|exact Hc|].
  apply (Hw 0 9). lia.
Defined.

Lemma ctor_move_source_unusable_witness :
  ∃ this s', ctor_move 1 (final sample) = Normal this s' ∧
    contents s' 1 = None ∧
    front 1 s' = Undefined ∧
    at_ 1 0 s' = Undefined ∧
    ∃ what, at_ 1 3 s' = Thrown (out_of_range what) s'.
Proof.
  destruct (ctor_move_source_unusable (final sample) 1 [1; 2; 3])
    as (this & s' & Hrun & Hc & Hfront & _ & Hin & Hout);
    [vm_compute; reflexivity|done|].
  exists this, s'. split_and!; [exact Hrun|exact Hc|exact Hfront| |].
  - apply (Hin 0). simpl; lia.
  - apply (Hout 3). simpl; lia.
Defined.

Lemma ctor_move_then_assign_back_witness :
  ∃ new s1 s2,
    ctor_move 1 (final sample) = Normal new s1 ∧
    assign_move 1 new s1 = Normal 1%positive s2 ∧
    contents s2 1 = Some [1; 2; 3] ∧
    read_all 1 s2 = Normal [1; 2; 3] s2 ∧
    get_data new s2 = Normal nullptr s2 ∧
    size new s2 = Normal 3 s2.
Proof.
  apply (ctor_move_then_assign_back (final sample) 1 [1; 2; 3]).
  vm_compute; reflexivity.
Defined.

Lemma ctor_move_transfers_array_witness :
  ∃ this s', ctor_move 1 (final sample) = Normal this s' ∧
    heap s' = heap (final sample) ∧
    ∃ r, subscript 1 2 (final sample) = Normal r (final sample) ∧
         subscript this 2 s' = Normal r s'.
Proof.
  destruct (ctor_move_transfers_array (final sample) 1 [1; 2; 3])
    as (this & s' & Hrun & Hheap & Hsame & _); [vm_compute; reflexivity|].
  exists this, s'. split_and!; [exact Hrun|exact Hheap|].
  apply (Hsame 2). simpl; lia.
Defined.

Lemma assign_move_twice_witness :
  ∃ s1, assign_move 1 2 (final sample) = Normal 1%positive s1 ∧
        assign_move 1 2 s1 = Normal 1%positive (final sample).
Proof.
  apply (assign_move_twice (final sample) 1 2
           (Dynarray (Ptr 1 0) 3) (Dynarray (Ptr 2 0) 5));
    vm_compute; reflexivity.
Defined.

Lemma assign_move_self_witness :
  assign_move 1 1 (final sample) = Normal 1%positive (final sample).
Proof.
  apply (assign_move_self (final sample) 1 (Dynarray (Ptr 1 0) 3)).
  vm_compute; reflexivity.
Defined.

End utils.
